(** * Reducer creators: [on] and [createReducer]

    A shallow embedding of [modules/store/src/reducer_creator.ts] and the
    properties its specification states about it.

    The TypeScript source has two run-time functions.  [on] pops the state
    change function off its argument array and maps the remaining action
    creators to their [type] strings.  [createReducer] fills a [Map] from
    action type to reducer, composing on collision, and returns a closure
    over that [Map] and the initial state.

    The embedding keeps the run-time data of the source: JavaScript values
    with a distinguished [undefined], the [Map] as a finite map that is
    read and written through a state monad, the returned closure as the
    record of what it captures, and calls of user functions as computations
    that either return a value or throw. *)

From stdpp Require Import base option list strings gmap fin_maps.
From Stdlib Require Import ZArith.

Local Open Scope Z_scope.

(** ** JavaScript values *)

(** The values a state can be at run time.  Numbers are the integers a
    double represents exactly, together with [NaN]; objects are shown by
    their own enumerable fields. *)
#[local] Set Warnings "-register-all".
Inductive value : Type :=
| VUndefined
| VNull
| VBool (b : bool)
| VNum (n : Z)
| VNaN
| VStr (s : string)
| VObj (fields : list (string * value)).

(** [state === undefined], the test a default parameter performs. *)
Definition is_undefined (v : value) : bool :=
  match v with
  | VUndefined => true
  | _ => false
  end.

(** ** Completions of user code *)

(** A call of a user supplied function either returns or throws. *)
Inductive completion (A : Type) : Type :=
| Normal (a : A)
| Throw (exn : value).

Arguments Normal {A} a.
Arguments Throw {A} exn.

#[global] Instance completion_ret : MRet completion := fun _ a => Normal a.

#[global] Instance completion_bind : MBind completion := fun _ _ f c =>
  match c with
  | Normal a => f a
  | Throw exn => Throw exn
  end.

(** ** The models of [./models] *)

Module Action.
(** Modelled from the spec: the interface [Action] of [./models], which is
    not among the sources.  An action is a record with a string identifier
    field [type] and arbitrary further fields. *)
Record t : Type := make { type : string; props : list (string * value) }.
End Action.

Module ActionCreator.
(** Modelled from the spec: the type [ActionCreator] of [./models], which is
    not among the sources.  An action descriptor is a value carrying the
    string identifier; [on] reads nothing else of it. *)
Record t : Type := make { type : string }.
End ActionCreator.

(** [OnReducer]: a state change function, called with the state and the
    action. *)
Definition OnReducer : Type := value -> Action.t -> completion value.

(** [ReducerTypes]: the return type of [on]. *)
Record ReducerTypes : Type := {
  reducer : OnReducer;
  types : list string
}.

(** ** Mutable objects *)

(** Code that reads and writes one mutable object of type [Σ]. *)
Definition State (Σ A : Type) : Type := Σ -> A * Σ.

#[global] Instance State_ret {Σ} : MRet (State Σ) := fun _ a σ => (a, σ).

#[global] Instance State_bind {Σ} : MBind (State Σ) := fun _ _ f c σ =>
  let '(a, σ') := c σ in f a σ'.

(** [for (const x of xs) body] *)
Fixpoint for_of {Σ A} (xs : list A) (body : A -> State Σ unit) : State Σ unit :=
  match xs with
  | [] => mret tt
  | x :: xs' => body x ;; for_of xs' body
  end.

(** [Array.prototype.pop]: removes the last element and returns it,
    [undefined] (here [None]) on an empty array. *)
Definition array_pop {A} : State (list A) (option A) :=
  fun args => (last args, removelast args).

(** The array as it is now. *)
Definition array_read {A} : State (list A) (list A) :=
  fun args => (args, args).

(** The [Map<string, OnReducer>] of [createReducer]. *)
Abbreviation ReducerMap := (gmap string OnReducer).

(** [map.get(key)]; [None] is the [undefined] of a missing key. *)
Definition map_get (key : string) : State ReducerMap (option OnReducer) :=
  fun m => (m !! key, m).

(** [map.set(key, r)] *)
Definition map_set (key : string) (r : OnReducer) : State ReducerMap unit :=
  fun m => (tt, <[key := r]> m).

(** ** [on] *)

(** An element of the rest parameter [args] of [on]. *)
Inductive OnArg : Type :=
| ArgCreator (creator : ActionCreator.t)
| ArgReducer (reducer : OnReducer).

(** [creator.type].  The static type of [on] admits action creators only
    in front of the last argument. *)
Definition creator_type (arg : OnArg) : option string :=
  match arg with
  | ArgCreator creator => Some (ActionCreator.type creator)
  | ArgReducer _ => None
  end.

(** The body of [on], acting on its own rest array [args]:
    [const reducer = args.pop(); const types = args.map(c => c.type);
     return { reducer, types }].
    The casts of the source check nothing at run time; an argument array
    that the static type of [on] excludes gives [None] here. *)
Definition on_body : State (list OnArg) (option ReducerTypes) :=
  popped ← array_pop;
  creators ← array_read;
  mret (match popped with
        | Some (ArgReducer reducer) =>
            types ← mapM creator_type creators;
            Some {| reducer := reducer; types := types |}
        | _ => None
        end).

(** [on(...args)]: the rest array is fresh at each call and is dropped when
    the call returns. *)
Definition on (args : list OnArg) : option ReducerTypes :=
  fst (on_body args).

(** A well typed call [on(c1, ..., cn, reducer)]. *)
Definition on_args (creators : list ActionCreator.t) (reducer : OnReducer) : list OnArg :=
  (ArgCreator <$> creators) ++ [ArgReducer reducer].

(** ** [createReducer] *)

(** The body of the inner loop, for one [type] of one [on].  The arrow
    function [newReducer] reads [on.reducer] when it is called and the
    [else] branch reads it at once; nothing here assigns to a pairing, so
    both read the function [on] was built with.  Map values are functions,
    hence truthy: [if (existingReducer)] tests for a present key. *)
Definition register (on : ReducerTypes) (type : string) : State ReducerMap unit :=
  existingReducer ← map_get type;
  match existingReducer with
  | Some existingReducer =>
      let newReducer : OnReducer := fun state action =>
        state' ← existingReducer state action; reducer on state' action in
      map_set type newReducer
  | None => map_set type (reducer on)
  end.

(** The two nested loops that fill the map. *)
Definition fill_map (ons : list ReducerTypes) : State ReducerMap unit :=
  for_of ons (fun on => for_of (types on) (fun type => register on type)).

(** What the returned function captures: [initialState] and [map]. *)
Record ActionReducer : Type := {
  env_initialState : value;
  env_map : ReducerMap
}.

(** [createReducer(initialState, ...ons)]: [new Map()], the loops, and the
    closure. *)
Definition createReducer (initialState : value) (ons : list ReducerTypes) : ActionReducer :=
  {| env_initialState := initialState;
     env_map := snd (fill_map ons ∅) |}.

(** The default parameter [state = initialState]. *)
Definition default_param (initialState state : value) : value :=
  if is_undefined state then initialState else state.

(** The body of the returned function, acting on the captured map:
    [const reducer = map.get(action.type);
     return reducer ? reducer(state, action) : state]. *)
Definition reducer_body (initialState state : value) (action : Action.t)
  : State ReducerMap (completion value) :=
  let state := default_param initialState state in
  reducer ← map_get (Action.type action);
  mret (match reducer with
        | Some reducer => reducer state action
        | None => Normal state
        end).

(** One call of the returned function: its completion and the closure
    afterwards. *)
Definition invoke (r : ActionReducer) (state : value) (action : Action.t)
  : completion value * ActionReducer :=
  let '(res, m) := reducer_body (env_initialState r) state action (env_map r) in
  (res, {| env_initialState := env_initialState r; env_map := m |}).

(** The completion of one call. *)
Definition dispatch (r : ActionReducer) (state : value) (action : Action.t)
  : completion value :=
  fst (invoke r state action).

(** A sequence of calls of the same returned function, one after the other. *)
Fixpoint invoke_all (r : ActionReducer) (calls : list (value * Action.t))
  : list (completion value) * ActionReducer :=
  match calls with
  | [] => ([], r)
  | (state, action) :: calls' =>
      let '(res, r') := invoke r state action in
      let '(ress, r'') := invoke_all r' calls' in
      (res :: ress, r'')
  end.

(** ** The handlers of an action type *)

(** The state change functions that [ons] lists for [type], in the order
    in which the loops of [createReducer] meet them: one entry for each
    occurrence of [type] in the [types] of each [on]. *)
Definition handlers_for (type : string) (ons : list ReducerTypes) : list OnReducer :=
  on ← ons; (fun _ => reducer on) <$> filter (fun t => t = type) (types on).

(** Calling the handlers one after the other, each on the state the one
    before returned and on the same action; a throw ends the run. *)
Fixpoint run_handlers (hs : list OnReducer) (state : value) (action : Action.t)
  : completion value :=
  match hs with
  | [] => Normal state
  | h :: hs' => state' ← h state action; run_handlers hs' state' action
  end.

(** The map entry of a type after further handlers [hs] were registered
    for it, [o] being the entry before. *)
Definition extend_entry (o : option OnReducer) (hs : list OnReducer) : option OnReducer :=
  fold_left (fun o r =>
               Some (match o with
                     | Some existingReducer => fun state action =>
                         state' ← existingReducer state action; r state' action
                     | None => r
                     end)) hs o.

(** What the returned function does with the entry it finds. *)
Definition apply_entry (o : option OnReducer) (state : value) (action : Action.t)
  : completion value :=
  match o with
  | Some reducer => reducer state action
  | None => Normal state
  end.

(** The number of times [type] occurs in [ts]. *)
Definition occurrences (type : string) (ts : list string) : nat :=
  length (filter (fun t => t = type) ts).

(** [n] calls of [f] in a row on the same action. *)
Fixpoint iterate (n : nat) (f : OnReducer) (state : value) (action : Action.t)
  : completion value :=
  match n with
  | O => Normal state
  | S n' => state' ← f state action; iterate n' f state' action
  end.

(** ** Sample handlers and actions *)

(** [s + 1] on a JavaScript value [s]. *)
Definition plus_one (s : value) : value :=
  match s with
  | VUndefined | VNaN => VNaN
  | VNull => VNum 1
  | VBool b => VNum (if b then 2 else 1)
  | VNum n => VNum (n + 1)
  | VStr s => VStr (s ++ "1")
  | VObj _ => VStr "[object Object]1"
  end.

(** [(s, _) => s + 1] *)
Definition inc : OnReducer := fun s _ => Normal (plus_one s).

(** [(s, _) => s + s] on numbers; other states are returned as they are. *)
Definition double : OnReducer := fun s _ =>
  Normal (match s with VNum n => VNum (n + n) | _ => s end).

(** [() => { throw "boom" }] *)
Definition boom : OnReducer := fun _ _ => Throw (VStr "boom").

(** [{ type }], an action without further fields. *)
Definition action_of (type : string) : Action.t := Action.make type [].

(** * Properties *)

(** ** The completion monad *)

Lemma completion_bind_normal {A B} (a : A) (f : A -> completion B) :
  Normal a ≫= f = f a.
Proof. reflexivity. Qed.

Lemma completion_bind_ret {A} (c : completion A) :
  c ≫= Normal = c.
Proof. by destruct c. Qed.

Lemma completion_bind_assoc {A B C} (c : completion A)
    (f : A -> completion B) (g : B -> completion C) :
  (c ≫= f) ≫= g = c ≫= (fun a => f a ≫= g).
Proof. by destruct c. Qed.

(** ** Running handlers *)

Lemma run_handlers_app hs1 hs2 state action :
  run_handlers (hs1 ++ hs2) state action
  = run_handlers hs1 state action ≫= (fun state' => run_handlers hs2 state' action).
Proof.
  revert state. induction hs1 as [|h hs1 IH]; intros state; simpl.
  - reflexivity.
  - rewrite completion_bind_assoc. destruct (h state action); simpl; auto.
Qed.

Lemma run_handlers_replicate n f state action :
  run_handlers (replicate n f) state action = iterate n f state action.
Proof.
  revert state. induction n as [|n IH]; intros state; simpl; [done|].
  destruct (f state action); simpl; auto.
Qed.

(** The entry found in the map runs the handlers registered for its type. *)
Lemma apply_extend_entry hs : forall o state action,
  apply_entry (extend_entry o hs) state action
  = apply_entry o state action ≫= (fun state' => run_handlers hs state' action).
Proof.
  induction hs as [|h hs IH]; intros o state action.
  - simpl. by rewrite completion_bind_ret.
  - unfold extend_entry in *. simpl. rewrite IH. destruct o as [e|]; simpl.
    + by rewrite completion_bind_assoc.
    + reflexivity.
Qed.

Lemma extend_entry_app o hs1 hs2 :
  extend_entry o (hs1 ++ hs2) = extend_entry (extend_entry o hs1) hs2.
Proof. apply fold_left_app. Qed.

(** ** The loops of [createReducer] *)

Lemma for_of_app {Σ A} (xs ys : list A) (body : A -> State Σ unit) σ :
  snd (for_of (xs ++ ys) body σ) = snd (for_of ys body (snd (for_of xs body σ))).
Proof.
  revert σ. induction xs as [|x xs IH]; intros σ; simpl; [done|].
  unfold mbind, State_bind. destruct (body x σ) as [[] σ']. apply IH.
Qed.

(** One round of the inner loop writes the entry of [type] alone. *)
Lemma register_lookup on type m key :
  snd (register on type m) !! key
  = if decide (type = key)
    then extend_entry (m !! key) [reducer on]
    else m !! key.
Proof.
  unfold register, map_get, map_set, mbind, State_bind.
  destruct (m !! type) as [e|] eqn:E; simpl; rewrite lookup_insert;
    case_decide; subst; try rewrite E; reflexivity.
Qed.

(** The inner loop: the entry of [key] gets the reducer of [on] once for
    each occurrence of [key] among the types. *)
Lemma inner_loop_lookup on ts : forall m key,
  snd (for_of ts (fun type => register on type) m) !! key
  = extend_entry (m !! key)
      ((fun _ => reducer on) <$> filter (fun t => t = key) ts).
Proof.
  induction ts as [|t ts IH]; intros m key; simpl; [done|].
  unfold mbind at 1, State_bind at 1.
  destruct (register on t m) as [[] m'] eqn:E.
  rewrite IH. assert (Hm' : m' = snd (register on t m)) by (by rewrite E).
  rewrite Hm', register_lookup, filter_cons.
  case_decide; reflexivity.
Qed.

(** The outer loop: the entry of [key] after [fill_map]. *)
Lemma fill_map_lookup ons : forall m key,
  snd (fill_map ons m) !! key = extend_entry (m !! key) (handlers_for key ons).
Proof.
  unfold fill_map, handlers_for.
  induction ons as [|on ons IH]; intros m key; simpl; [done|].
  unfold mbind at 1, State_bind at 1.
  destruct (for_of (types on) _ m) as [[] m'] eqn:E.
  rewrite IH, extend_entry_app. f_equal.
  assert (Hm' : m' = snd (for_of (types on) (fun type => register on type) m))
    by (by rewrite E).
  rewrite Hm'. apply inner_loop_lookup.
Qed.

(** ** The returned function *)

(** A call never writes the captured map (it only calls [map.get]). *)
Lemma invoke_closure r state action :
  snd (invoke r state action) = r.
Proof. by destruct r. Qed.

Lemma dispatch_unfold r state action :
  dispatch r state action
  = apply_entry (env_map r !! Action.type action)
      (default_param (env_initialState r) state) action.
Proof. reflexivity. Qed.

(** The returned function runs the handlers listed for the type of the
    action, in declaration order, on the state or, when that is
    [undefined], on the initial state. *)
Lemma dispatch_createReducer initialState ons state action :
  dispatch (createReducer initialState ons) state action
  = run_handlers (handlers_for (Action.type action) ons)
      (default_param initialState state) action.
Proof.
  rewrite dispatch_unfold. simpl.
  rewrite fill_map_lookup, lookup_empty, apply_extend_entry. reflexivity.
Qed.

Lemma default_param_defined initialState state :
  state ≠ VUndefined -> default_param initialState state = state.
Proof. by destruct state. Qed.

Lemma handlers_for_nil type : handlers_for type [] = [].
Proof. reflexivity. Qed.

Lemma handlers_for_cons type on ons :
  handlers_for type (on :: ons)
  = replicate (occurrences type (types on)) (reducer on) ++ handlers_for type ons.
Proof.
  unfold handlers_for, occurrences. simpl. f_equal.
  induction (filter _ (types on)) as [|t ts IH]; simpl; [done|]. by f_equal.
Qed.

Lemma handlers_for_app type ons1 ons2 :
  handlers_for type (ons1 ++ ons2) = handlers_for type ons1 ++ handlers_for type ons2.
Proof. unfold handlers_for. apply bind_app. Qed.

Lemma occurrences_cons type t ts :
  occurrences type (t :: ts)
  = if decide (t = type) then S (occurrences type ts) else occurrences type ts.
Proof. unfold occurrences. rewrite filter_cons. by case_decide. Qed.

Lemma occurrences_unlisted type ts :
  type ∉ ts -> occurrences type ts = 0%nat.
Proof.
  induction ts as [|t ts IH]; intros H; [done|].
  rewrite occurrences_cons. apply not_elem_of_cons in H as [Hne Hts].
  case_decide; [congruence | auto].
Qed.

(** A type that no [on] lists has no handler. *)
Lemma handlers_for_unlisted type ons :
  (forall on, on ∈ ons -> type ∉ types on) -> handlers_for type ons = [].
Proof.
  induction ons as [|on ons IH]; intros H; [done|].
  rewrite handlers_for_cons, IH.
  - rewrite occurrences_unlisted; [done|]. apply H. by left.
  - intros on' Hon'. apply H. by right.
Qed.

(** ** [on] on well typed calls *)

Lemma mapM_creator_type creators :
  mapM creator_type (ArgCreator <$> creators) = Some (ActionCreator.type <$> creators).
Proof.
  induction creators as [|c cs IH]; [done|].
  simpl. unfold fmap in IH. unfold fmap. by rewrite IH.
Qed.

(** The whole run of [on] on [creators] followed by [reducer]: the pairing
    returned and the rest array as [pop] left it. *)
Lemma on_body_well_typed creators reducer :
  on_body (on_args creators reducer)
  = (Some {| reducer := reducer; types := ActionCreator.type <$> creators |},
     ArgCreator <$> creators).
Proof.
  unfold on_body, on_args, array_pop, array_read, mbind, State_bind, mret, State_ret.
  rewrite last_snoc, removelast_last. simpl.
  by rewrite mapM_creator_type.
Qed.

Lemma on_well_typed creators reducer :
  on (on_args creators reducer)
  = Some {| reducer := reducer; types := ActionCreator.type <$> creators |}.
Proof. unfold on. by rewrite on_body_well_typed. Qed.

(** * The claims of the specification *)

(** C1: for a reducer built from two pairings that both list the identifier
    [X], with state change functions [f] and [g] in that order, a call
    with a state [s] and an action of type [X] returns
    [g(f(s, action), action)]: [f] runs first, [g] runs on what [f]
    returned and on the same action, and a throw of [f] is the throw of
    the call.  Each pairing lists [X] once.  The [s] that [f] receives is
    the state parameter of the returned function: the argument of the
    call, or the initial state when that argument is [undefined]. *)
Theorem shared_tag_composes_in_declaration_order
    (initialState : value) (f g : OnReducer) (ts1 ts2 : list string)
    (X : string) (s : value) (action : Action.t) :
  occurrences X ts1 = 1%nat ->
  occurrences X ts2 = 1%nat ->
  Action.type action = X ->
  let dispatch_ := dispatch (createReducer initialState
                               [ {| reducer := f; types := ts1 |};
                                 {| reducer := g; types := ts2 |} ]) in
  (s ≠ VUndefined -> dispatch_ s action = (s' ← f s action; g s' action))
  /\ dispatch_ s action
     = (s' ← f (default_param initialState s) action; g s' action).
Proof.
  intros H1 H2 HX dispatch_.
  assert (Hall : dispatch_ s action
                 = (s' ← f (default_param initialState s) action; g s' action)).
  { unfold dispatch_.
    rewrite dispatch_createReducer, HX, !handlers_for_cons, handlers_for_nil.
    simpl. rewrite H1, H2. simpl.
    destruct (f _ action); simpl; [|done].
    by rewrite completion_bind_ret. }
  split; [|exact Hall].
  intros Hs. by rewrite Hall, default_param_defined.
Qed.

Lemma shared_tag_composes_witness :
  dispatch (createReducer (VNum 0)
              [ {| reducer := inc; types := ["X"; "Y"] |};
                {| reducer := double; types := ["Z"; "X"] |} ])
    (VNum 5) (action_of "X")
  = (s' ← inc (VNum 5) (action_of "X"); double s' (action_of "X")).
Proof.
  apply (proj1 (shared_tag_composes_in_declaration_order
                  (VNum 0) inc double ["X"; "Y"] ["Z"; "X"] "X" (VNum 5)
                  (action_of "X") eq_refl eq_refl eq_refl)).
  discriminate.
Defined.

(** C2: for every reducer built by [createReducer], every defined state
    [s] and every action whose type no pairing lists, the call returns
    [s] itself and does not throw. *)
Theorem unknown_action_returns_state
    (initialState : value) (ons : list ReducerTypes)
    (s : value) (action : Action.t) :
  s ≠ VUndefined ->
  (forall on, on ∈ ons -> Action.type action ∉ types on) ->
  dispatch (createReducer initialState ons) s action = Normal s.
Proof.
  intros Hs Hun.
  rewrite dispatch_createReducer, handlers_for_unlisted by done.
  simpl. by rewrite default_param_defined.
Qed.

Lemma unknown_action_witness :
  dispatch (createReducer (VNum 0)
              [ {| reducer := boom; types := ["X"; "Y"] |} ])
    VNull (action_of "OTHER")
  = Normal VNull.
Proof.
  apply (unknown_action_returns_state
           (VNum 0) [ {| reducer := boom; types := ["X"; "Y"] |} ]
           VNull (action_of "OTHER")).
  - discriminate.
  - intros on Hon. apply list_elem_of_singleton in Hon. subst on. simpl.
    intros Hin. repeat (apply elem_of_cons in Hin as [Hin | Hin]; [discriminate|]).
    by apply elem_of_nil in Hin.
Defined.

(** C3: when the state argument is [undefined] the initial state [S0]
    takes its place before the map is consulted.  With no pairings, or
    with an action type that no pairing lists, the call returns [S0]; and
    whenever the map has an entry for the type of the action, that
    composed function is called with [(S0, action)] and its completion is
    the completion of the call, which is the run of the handlers listed
    for that type, in order, from [S0]. *)
Theorem undefined_state_takes_initial_state
    (S0 : value) (ons : list ReducerTypes) (action : Action.t) :
  dispatch (createReducer S0 []) VUndefined action = Normal S0
  /\ ((forall on, on ∈ ons -> Action.type action ∉ types on) ->
      dispatch (createReducer S0 ons) VUndefined action = Normal S0)
  /\ (forall composed : OnReducer,
        env_map (createReducer S0 ons) !! Action.type action = Some composed ->
        dispatch (createReducer S0 ons) VUndefined action = composed S0 action)
  /\ dispatch (createReducer S0 ons) VUndefined action
     = run_handlers (handlers_for (Action.type action) ons) S0 action.
Proof.
  repeat split.
  - intros Hun. by rewrite dispatch_createReducer, handlers_for_unlisted.
  - intros composed Hc. rewrite dispatch_unfold, Hc. reflexivity.
  - by rewrite dispatch_createReducer.
Qed.

Lemma undefined_state_witness :
  dispatch (createReducer (VNum 7) [ {| reducer := inc; types := ["INC"] |} ])
    VUndefined (action_of "OTHER")
  = Normal (VNum 7).
Proof.
  apply (proj1 (proj2 (undefined_state_takes_initial_state
           (VNum 7) [ {| reducer := inc; types := ["INC"] |} ] (action_of "OTHER")))).
  intros on Hon. apply list_elem_of_singleton in Hon. subst on. simpl.
  intros Hin. apply list_elem_of_singleton in Hin. discriminate.
Defined.

(** C4: [on] called with action creators whose identifiers are [a] and
    [b], in that order, followed by a state change function [f], returns
    the pairing whose [types] is [[a; b]] in that order and whose
    [reducer] is [f].  The one write of the call is the [pop] on its own
    rest array, which ends as the two creators. *)
Theorem on_pairs_types_with_reducer
    (ca cb : ActionCreator.t) (f : OnReducer) (a b : string) :
  ActionCreator.type ca = a ->
  ActionCreator.type cb = b ->
  on [ArgCreator ca; ArgCreator cb; ArgReducer f]
  = Some {| reducer := f; types := [a; b] |}
  /\ on_body [ArgCreator ca; ArgCreator cb; ArgReducer f]
     = (Some {| reducer := f; types := [a; b] |}, [ArgCreator ca; ArgCreator cb]).
Proof.
  intros <- <-. split.
  - apply (on_well_typed [ca; cb] f).
  - apply (on_body_well_typed [ca; cb] f).
Qed.

Lemma on_pairs_types_witness :
  on [ArgCreator (ActionCreator.make "LOGIN"); ArgCreator (ActionCreator.make "LOGOUT");
      ArgReducer inc]
  = Some {| reducer := inc; types := ["LOGIN"; "LOGOUT"] |}.
Proof.
  apply (on_pairs_types_with_reducer
           (ActionCreator.make "LOGIN") (ActionCreator.make "LOGOUT") inc
           "LOGIN" "LOGOUT"); reflexivity.
Defined.

(** C5, as the specification has it, fails: with initial state [0] and no
    pairings, the call with the state [undefined] returns [0], not
    [undefined]. *)
Lemma no_pairings_undefined_state_is_replaced :
  dispatch (createReducer (VNum 0) []) VUndefined (action_of "ANY") = Normal (VNum 0)
  /\ dispatch (createReducer (VNum 0) []) VUndefined (action_of "ANY")
     ≠ Normal VUndefined.
Proof. split; [reflexivity | discriminate]. Qed.

(** C5, amended: for a reducer built with initial state [S0] and no
    pairings, the call with any state [S1] other than [undefined] returns
    [S1]. *)
Theorem no_pairings_returns_defined_state
    (S0 S1 : value) (action : Action.t) :
  S1 ≠ VUndefined ->
  dispatch (createReducer S0 []) S1 action = Normal S1.
Proof.
  intros HS1. rewrite dispatch_createReducer, handlers_for_nil. simpl.
  by rewrite default_param_defined.
Qed.

Lemma no_pairings_witness :
  dispatch (createReducer (VNum 0) []) (VStr "s1") (action_of "ANY")
  = Normal (VStr "s1").
Proof.
  apply (no_pairings_returns_defined_state (VNum 0) (VStr "s1") (action_of "ANY")).
  discriminate.
Defined.

(** A run of calls leaves the closure as it was. *)
Lemma invoke_all_closure calls : forall r, snd (invoke_all r calls) = r.
Proof.
  induction calls as [|[state action] calls IH]; intros r; [done|].
  cbn [invoke_all].
  pose proof (invoke_closure r state action) as Hr.
  destruct (invoke r state action) as [res r']. cbn [snd] in Hr. subst r'.
  specialize (IH r). destruct (invoke_all r calls) as [ress r'']. exact IH.
Qed.

(** C6: the function returned by [createReducer] is deterministic: the
    map it captures is filled once by [createReducer] and no call writes
    it, so the same state and action give the same completion at every
    call, whatever other calls of the function came before or in
    between.  The state change functions are the pure functions the
    specification takes them to be. *)
Theorem dispatch_is_deterministic
    (initialState : value) (ons : list ReducerTypes)
    (before between : list (value * Action.t))
    (state : value) (action : Action.t) :
  let r0 := createReducer initialState ons in
  let r1 := snd (invoke_all r0 before) in
  let first := invoke r1 state action in
  let r2 := snd (invoke_all (snd first) between) in
  let second := invoke r2 state action in
  fst second = fst first
  /\ fst first = dispatch r0 state action
  /\ env_map (snd second) = env_map r0.
Proof.
  intros r0 r1 first r2 second.
  assert (H1 : r1 = r0) by apply invoke_all_closure.
  assert (H2 : r2 = r0).
  { unfold r2, first. by rewrite invoke_all_closure, invoke_closure. }
  unfold second, first. rewrite H2, H1, invoke_closure. done.
Qed.

(** C7: with the one pairing of ["INC"] with [(s, _) => s + 1], the call
    with state [5] returns [6] on an action of type ["INC"] and [5] on an
    action of type ["OTHER"]. *)
Theorem inc_example (initialState : value) (props props' : list (string * value)) :
  on [ArgCreator (ActionCreator.make "INC"); ArgReducer inc]
  = Some {| reducer := inc; types := ["INC"] |}
  /\ dispatch (createReducer initialState [ {| reducer := inc; types := ["INC"] |} ])
       (VNum 5) (Action.make "INC" props)
     = Normal (VNum 6)
  /\ dispatch (createReducer initialState [ {| reducer := inc; types := ["INC"] |} ])
       (VNum 5) (Action.make "OTHER" props')
     = Normal (VNum 5).
Proof.
  split; [reflexivity|].
  split; rewrite dispatch_createReducer; reflexivity.
Qed.

(** The closure does not change when a pairing without types is left out. *)
Lemma createReducer_skip_untyped initialState ons1 ons2 f :
  createReducer initialState (ons1 ++ {| reducer := f; types := [] |} :: ons2)
  = createReducer initialState (ons1 ++ ons2).
Proof.
  unfold createReducer. f_equal. apply map_eq. intros key.
  rewrite !fill_map_lookup, !handlers_for_app, handlers_for_cons.
  reflexivity.
Qed.

(** C8: [on] called with a state change function and no action creator
    returns a pairing with no types; given to [createReducer], at any
    place among the pairings, it leaves the reducer built as it is without
    it, so that every call completes as if the pairing were not there and
    its function is never called. *)
Theorem untyped_pairing_is_unreachable
    (f : OnReducer) (initialState : value) (ons1 ons2 : list ReducerTypes)
    (state : value) (action : Action.t) :
  on [ArgReducer f] = Some {| reducer := f; types := [] |}
  /\ createReducer initialState (ons1 ++ {| reducer := f; types := [] |} :: ons2)
     = createReducer initialState (ons1 ++ ons2)
  /\ dispatch (createReducer initialState
                 (ons1 ++ {| reducer := f; types := [] |} :: ons2)) state action
     = dispatch (createReducer initialState (ons1 ++ ons2)) state action.
Proof.
  split; [reflexivity|].
  split; [apply createReducer_skip_untyped|].
  by rewrite createReducer_skip_untyped.
Qed.

(** C9: a pairing whose types list an identifier more than once has its
    state change function composed with itself: a call with an action of
    that type runs the function once for each occurrence of the type in
    the list, each run on the state the one before returned; twice for an
    [on] call that names the same action creator twice. *)
Theorem repeated_type_repeats_handler
    (initialState : value) (f : OnReducer) (ts : list string)
    (creator : ActionCreator.t) (state : value) (action : Action.t) :
  dispatch (createReducer initialState [ {| reducer := f; types := ts |} ])
    state action
  = iterate (occurrences (Action.type action) ts) f
      (default_param initialState state) action
  /\ on [ArgCreator creator; ArgCreator creator; ArgReducer f]
     = Some {| reducer := f;
               types := [ActionCreator.type creator; ActionCreator.type creator] |}
  /\ dispatch (createReducer initialState
                 [ {| reducer := f;
                      types := [ActionCreator.type creator;
                                ActionCreator.type creator] |} ])
       state (Action.make (ActionCreator.type creator) [])
     = (s' ← f (default_param initialState state)
                (Action.make (ActionCreator.type creator) []);
        f s' (Action.make (ActionCreator.type creator) [])).
Proof.
  split; [|split].
  - rewrite dispatch_createReducer, handlers_for_cons, handlers_for_nil, app_nil_r.
    apply run_handlers_replicate.
  - apply (on_well_typed [creator; creator] f).
  - rewrite dispatch_createReducer, handlers_for_cons, handlers_for_nil, app_nil_r.
    rewrite run_handlers_replicate. simpl.
    rewrite !occurrences_cons. rewrite !decide_True by done. simpl.
    destruct (f _ _); simpl; [|done]. by rewrite completion_bind_ret.
Qed.

(** C10: only the state [undefined] is replaced by the initial state.  Any
    other state, [null], [0], [false] and the empty string among them, is
    the one the handlers of the action type run on, and the one returned
    when there is none. *)
Theorem only_undefined_is_replaced
    (initialState : value) (ons : list ReducerTypes)
    (state : value) (action : Action.t) :
  state ≠ VUndefined ->
  default_param initialState state = state
  /\ dispatch (createReducer initialState ons) state action
     = apply_entry (env_map (createReducer initialState ons) !! Action.type action)
         state action
  /\ dispatch (createReducer initialState ons) state action
     = run_handlers (handlers_for (Action.type action) ons) state action
  /\ (handlers_for (Action.type action) ons = [] ->
      dispatch (createReducer initialState ons) state action = Normal state).
Proof.
  intros Hs. pose proof (default_param_defined initialState state Hs) as Hd.
  split; [done|]. split; [|split].
  - rewrite dispatch_unfold. simpl. by rewrite Hd.
  - by rewrite dispatch_createReducer, Hd.
  - intros Hnil. by rewrite dispatch_createReducer, Hd, Hnil.
Qed.

Lemma only_undefined_witness :
  default_param (VNum 7) VNull = VNull
  /\ dispatch (createReducer (VNum 7) [ {| reducer := inc; types := ["INC"] |} ])
       VNull (action_of "INC")
     = apply_entry
         (env_map (createReducer (VNum 7) [ {| reducer := inc; types := ["INC"] |} ])
            !! Action.type (action_of "INC"))
         VNull (action_of "INC")
  /\ dispatch (createReducer (VNum 7) [ {| reducer := inc; types := ["INC"] |} ])
       VNull (action_of "INC")
     = run_handlers
         (handlers_for (Action.type (action_of "INC"))
            [ {| reducer := inc; types := ["INC"] |} ])
         VNull (action_of "INC")
  /\ (handlers_for (Action.type (action_of "INC"))
        [ {| reducer := inc; types := ["INC"] |} ] = [] ->
      dispatch (createReducer (VNum 7) [ {| reducer := inc; types := ["INC"] |} ])
        VNull (action_of "INC")
      = Normal VNull).
Proof.
  apply (only_undefined_is_replaced
           (VNum 7) [ {| reducer := inc; types := ["INC"] |} ] VNull (action_of "INC")).
  discriminate.
Defined.

(** Falsy states on the reducer of the increment example: none is
    replaced, while [undefined] is. *)
Example falsy_states_are_kept :
  let r := createReducer (VNum 7) [ {| reducer := inc; types := ["INC"] |} ] in
  dispatch r VNull (action_of "OTHER") = Normal VNull
  /\ dispatch r (VNum 0) (action_of "OTHER") = Normal (VNum 0)
  /\ dispatch r (VStr "") (action_of "OTHER") = Normal (VStr "")
  /\ dispatch r (VBool false) (action_of "OTHER") = Normal (VBool false)
  /\ dispatch r VNull (action_of "INC") = Normal (VNum 1)
  /\ dispatch r (VNum 0) (action_of "INC") = Normal (VNum 1)
  /\ dispatch r (VStr "") (action_of "INC") = Normal (VStr "1")
  /\ dispatch r VUndefined (action_of "INC") = Normal (VNum 8)
  /\ dispatch r VUndefined (action_of "OTHER") = Normal (VNum 7).
Proof. repeat split; rewrite dispatch_createReducer; reflexivity. Qed.

(** * Further properties of the dispatch table and of the returned function *)

(** Membership facts about explicit lists, as the samples below need them. *)
Ltac explicit_list :=
  repeat match goal with
    | H : _ ∈ [] |- _ => by apply elem_of_nil in H
    | H : _ ∈ _ :: _ |- _ => apply elem_of_cons in H as [H | H]; subst; simpl in *
    | H : _ ∈ _ ++ _ |- _ => apply elem_of_app in H as [H | H]
    | |- _ ∉ _ => let Hin := fresh "Hin" in intros Hin
    end;
  try done.

Lemma occurrences_app type ts1 ts2 :
  occurrences type (ts1 ++ ts2)
  = (occurrences type ts1 + occurrences type ts2)%nat.
Proof. unfold occurrences. by rewrite filter_app, length_app. Qed.

Lemma occurrences_listed type ts :
  type ∈ ts -> (0 < occurrences type ts)%nat.
Proof.
  induction ts as [|t ts IH]; intros H; [by apply elem_of_nil in H|].
  rewrite occurrences_cons. case_decide; [lia|].
  apply elem_of_cons in H as [H | H]; [congruence | auto].
Qed.

Lemma occurrences_NoDup type ts :
  NoDup ts -> type ∈ ts -> occurrences type ts = 1%nat.
Proof.
  induction 1 as [|t ts Hnotin Hnd IH]; intros H; [by apply elem_of_nil in H|].
  rewrite occurrences_cons. case_decide as Heq.
  - subst t. by rewrite occurrences_unlisted.
  - apply elem_of_cons in H as [H | H]; [congruence | auto].
Qed.

(** The handlers of a type are state change functions of pairings that
    list it. *)
Lemma handlers_for_elem type ons h :
  h ∈ handlers_for type ons ->
  exists on, on ∈ ons /\ type ∈ types on /\ h = reducer on.
Proof.
  induction ons as [|on ons IH]; intros H; [by apply elem_of_nil in H|].
  rewrite handlers_for_cons in H. apply elem_of_app in H as [H | H].
  - apply elem_of_replicate in H as [-> Hocc]. exists on.
    split; [by left|]. split; [|done].
    destruct (decide (type ∈ types on)) as [|Hn]; [done|].
    by rewrite occurrences_unlisted in Hocc.
  - destruct (IH H) as (on' & Hon' & Hty & ->). exists on'.
    split; [by right | done].
Qed.

Lemma handlers_for_listed type ons on :
  on ∈ ons -> type ∈ types on -> handlers_for type ons ≠ [].
Proof.
  induction ons as [|on' ons IH]; intros Hon Hty; [by apply elem_of_nil in Hon|].
  rewrite handlers_for_cons. apply elem_of_cons in Hon as [<- | Hon].
  - pose proof (occurrences_listed _ _ Hty) as Hpos.
    destruct (occurrences type (types on)); [lia | done].
  - intros Happ. apply app_eq_nil in Happ as [_ Hnil]. by apply IH.
Qed.

Lemma extend_entry_is_Some hs : forall o,
  is_Some o -> is_Some (extend_entry o hs).
Proof.
  induction hs as [|h hs IH]; intros o Ho; [done|].
  apply (IH (Some _)). by eexists.
Qed.

Lemma extend_entry_nonempty o h hs : is_Some (extend_entry o (h :: hs)).
Proof.
  change (h :: hs) with ([h] ++ hs).
  rewrite extend_entry_app. apply extend_entry_is_Some. by eexists.
Qed.

(** An entry built from nothing is the run of its handlers. *)
Lemma extend_entry_run hs (r : OnReducer) state action :
  extend_entry None hs = Some r -> r state action = run_handlers hs state action.
Proof.
  intros H. pose proof (apply_extend_entry hs None state action) as Ha.
  rewrite H in Ha. exact Ha.
Qed.

(** A throw of a run was thrown by one of the handlers. *)
Lemma run_handlers_throw hs : forall state action exn,
  run_handlers hs state action = Throw exn ->
  exists h state', h ∈ hs /\ h state' action = Throw exn.
Proof.
  induction hs as [|h hs IH]; intros state action exn H; [discriminate|].
  simpl in H. destruct (h state action) as [state'|exn'] eqn:E; simpl in H.
  - destruct (IH _ _ _ H) as (h' & s' & Hin & Hthrow).
    exists h', s'. split; [by right | done].
  - injection H as ->. exists h, state. split; [by left | done].
Qed.

(** X1: the keys of the map that [createReducer] builds are the types that
    its pairings list, no more and no less. *)
Theorem table_keys_are_listed_types
    (initialState : value) (ons : list ReducerTypes) (key : string) :
  is_Some (env_map (createReducer initialState ons) !! key)
  <-> exists on, on ∈ ons /\ key ∈ types on.
Proof.
  simpl. rewrite fill_map_lookup, lookup_empty. split.
  - intros Hsome. destruct (handlers_for key ons) as [|h hs] eqn:E.
    + by destruct Hsome.
    + destruct (handlers_for_elem key ons h) as (on & Hon & Hty & _).
      { rewrite E. by left. }
      by exists on.
  - intros (on & Hon & Hty).
    pose proof (handlers_for_listed key ons on Hon Hty) as Hne.
    destruct (handlers_for key ons) as [|h hs]; [done|].
    apply extend_entry_nonempty.
Qed.

(** X2: every entry of the map, called with any state and any action, runs
    the state change functions of the pairings that list its key, once
    for each listing and in the order of the listings, each on the state
    the one before returned; the first throw ends the run. *)
Theorem table_entry_runs_listed_handlers
    (initialState : value) (ons : list ReducerTypes) (key : string)
    (entry : OnReducer) (state : value) (action : Action.t) :
  env_map (createReducer initialState ons) !! key = Some entry ->
  entry state action = run_handlers (handlers_for key ons) state action.
Proof.
  simpl. rewrite fill_map_lookup, lookup_empty. apply extend_entry_run.
Qed.

Lemma table_entry_witness :
  (fun state action => state' ← inc state action; double state' action)
    (VNum 5) (action_of "Y")
  = run_handlers
      (handlers_for "X" [ {| reducer := inc; types := ["X"] |};
                          {| reducer := double; types := ["X"] |} ])
      (VNum 5) (action_of "Y").
Proof.
  apply (table_entry_runs_listed_handlers
           (VNum 0)
           [ {| reducer := inc; types := ["X"] |};
             {| reducer := double; types := ["X"] |} ]
           "X"
           (fun state action => state' ← inc state action; double state' action)
           (VNum 5) (action_of "Y")).
  vm_compute. reflexivity.
Defined.

(** X3: pairings added at the end run after the ones before them.  When
    the reducer built from [ons1] returns a defined state [s'] for a call,
    the reducer built from [ons1] followed by [ons2] completes that call
    as the reducer built from [ons2] completes the call with [s'] and the
    same action. *)
Theorem appended_pairings_run_afterwards
    (initialState : value) (ons1 ons2 : list ReducerTypes)
    (state state' : value) (action : Action.t) :
  dispatch (createReducer initialState ons1) state action = Normal state' ->
  state' ≠ VUndefined ->
  dispatch (createReducer initialState (ons1 ++ ons2)) state action
  = dispatch (createReducer initialState ons2) state' action.
Proof.
  intros H1 Hdef.
  rewrite !dispatch_createReducer in *.
  rewrite handlers_for_app, run_handlers_app, H1. simpl.
  by rewrite default_param_defined.
Qed.

Lemma appended_pairings_witness :
  dispatch (createReducer (VNum 0)
              ([ {| reducer := inc; types := ["X"] |} ]
               ++ [ {| reducer := double; types := ["X"; "Y"] |} ]))
    (VNum 5) (action_of "X")
  = dispatch (createReducer (VNum 0) [ {| reducer := double; types := ["X"; "Y"] |} ])
      (VNum 6) (action_of "X").
Proof.
  apply (appended_pairings_run_afterwards
           (VNum 0) [ {| reducer := inc; types := ["X"] |} ]
           [ {| reducer := double; types := ["X"; "Y"] |} ]
           (VNum 5) (VNum 6) (action_of "X")).
  - vm_compute. reflexivity.
  - discriminate.
Defined.

(** X4: a throw is not caught and ends the call.  When the reducer built
    from [ons1] throws on a call, the reducer built from [ons1] followed
    by any further pairings throws the same value on that call: no later
    state change function can recover from it. *)
Theorem throw_ends_the_call
    (initialState : value) (ons1 ons2 : list ReducerTypes)
    (state : value) (action : Action.t) (exn : value) :
  dispatch (createReducer initialState ons1) state action = Throw exn ->
  dispatch (createReducer initialState (ons1 ++ ons2)) state action = Throw exn.
Proof.
  intros H1. rewrite !dispatch_createReducer in *.
  by rewrite handlers_for_app, run_handlers_app, H1.
Qed.

Lemma throw_ends_the_call_witness :
  dispatch (createReducer (VNum 0)
              ([ {| reducer := boom; types := ["X"] |} ]
               ++ [ {| reducer := inc; types := ["X"] |} ]))
    (VNum 5) (action_of "X")
  = Throw (VStr "boom").
Proof.
  apply (throw_ends_the_call
           (VNum 0) [ {| reducer := boom; types := ["X"] |} ]
           [ {| reducer := inc; types := ["X"] |} ]
           (VNum 5) (action_of "X") (VStr "boom")).
  vm_compute. reflexivity.
Defined.

(** X5: every throw of the returned function is a throw of a state change
    function of a pairing that lists the type of the action; the lookup,
    the default parameter and the composition throw nothing themselves. *)
Theorem throw_comes_from_a_listed_handler
    (initialState : value) (ons : list ReducerTypes)
    (state : value) (action : Action.t) (exn : value) :
  dispatch (createReducer initialState ons) state action = Throw exn ->
  exists on state',
    on ∈ ons /\ Action.type action ∈ types on
    /\ reducer on state' action = Throw exn.
Proof.
  rewrite dispatch_createReducer. intros H.
  destruct (run_handlers_throw _ _ _ _ H) as (h & state' & Hin & Hthrow).
  destruct (handlers_for_elem _ _ _ Hin) as (on & Hon & Hty & ->).
  by exists on, state'.
Qed.

Lemma throw_comes_from_witness :
  exists on state',
    on ∈ [ {| reducer := inc; types := ["X"] |};
           {| reducer := boom; types := ["X"] |} ]
    /\ Action.type (action_of "X") ∈ types on
    /\ reducer on state' (action_of "X") = Throw (VStr "boom").
Proof.
  apply (throw_comes_from_a_listed_handler
           (VNum 0)
           [ {| reducer := inc; types := ["X"] |};
             {| reducer := boom; types := ["X"] |} ]
           (VNum 5) (action_of "X") (VStr "boom")).
  vm_compute. reflexivity.
Defined.

(** Reducers whose pairings list the same handlers for every type are the
    same closure. *)
Lemma createReducer_ext initialState ons ons' :
  (forall key, handlers_for key ons = handlers_for key ons') ->
  createReducer initialState ons = createReducer initialState ons'.
Proof.
  intros H. unfold createReducer. f_equal. apply map_eq. intros key.
  by rewrite !fill_map_lookup, H.
Qed.

(** X6: the order of two neighbouring pairings that have no type in common
    does not matter: [createReducer] builds the same map from both
    orders. *)
Theorem disjoint_pairings_commute
    (initialState : value) (ons1 ons2 : list ReducerTypes) (p q : ReducerTypes) :
  (forall type, type ∈ types p -> type ∉ types q) ->
  createReducer initialState (ons1 ++ p :: q :: ons2)
  = createReducer initialState (ons1 ++ q :: p :: ons2).
Proof.
  intros Hdisj. apply createReducer_ext. intros key.
  rewrite !handlers_for_app, !handlers_for_cons. f_equal.
  rewrite !app_assoc. f_equal.
  destruct (decide (key ∈ types p)) as [Hp | Hp].
  - rewrite (occurrences_unlisted key (types q)) by auto.
    simpl. by rewrite app_nil_r.
  - rewrite (occurrences_unlisted key (types p)) by auto.
    simpl. by rewrite app_nil_r.
Qed.

Lemma disjoint_pairings_witness :
  createReducer (VNum 0)
    ([] ++ {| reducer := inc; types := ["X"; "Y"] |}
        :: {| reducer := double; types := ["Z"] |} :: [])
  = createReducer (VNum 0)
      ([] ++ {| reducer := double; types := ["Z"] |}
          :: {| reducer := inc; types := ["X"; "Y"] |} :: []).
Proof.
  apply (disjoint_pairings_commute
           (VNum 0) [] []
           {| reducer := inc; types := ["X"; "Y"] |}
           {| reducer := double; types := ["Z"] |}).
  simpl. intros type Hin. explicit_list.
Defined.

(** X7: one pairing of a state change function with several types is the
    same as pairings of that function with the parts of the type list, in
    the same order and place: [on(a, b, f)] can be written
    [on(a, f), on(b, f)]. *)
Theorem pairing_splits_over_its_types
    (initialState : value) (ons1 ons2 : list ReducerTypes)
    (f : OnReducer) (ts1 ts2 : list string) :
  createReducer initialState
    (ons1 ++ {| reducer := f; types := ts1 ++ ts2 |} :: ons2)
  = createReducer initialState
      (ons1 ++ {| reducer := f; types := ts1 |}
            :: {| reducer := f; types := ts2 |} :: ons2).
Proof.
  apply createReducer_ext. intros key.
  rewrite !handlers_for_app, !handlers_for_cons. simpl.
  rewrite occurrences_app, replicate_add. f_equal.
  by rewrite <- app_assoc.
Qed.

(** X8: a pairing that does not list the type of an action has no part in
    the call: with or without it, wherever it stands, the call completes
    the same way. *)
Theorem pairing_of_other_types_is_not_called
    (initialState : value) (ons1 ons2 : list ReducerTypes) (p : ReducerTypes)
    (state : value) (action : Action.t) :
  Action.type action ∉ types p ->
  dispatch (createReducer initialState (ons1 ++ p :: ons2)) state action
  = dispatch (createReducer initialState (ons1 ++ ons2)) state action.
Proof.
  intros Hnot. rewrite !dispatch_createReducer.
  rewrite !handlers_for_app, handlers_for_cons.
  by rewrite occurrences_unlisted.
Qed.

Lemma pairing_of_other_types_witness :
  dispatch (createReducer (VNum 0)
              ([ {| reducer := inc; types := ["X"] |} ]
               ++ {| reducer := boom; types := ["Y"; "Z"] |}
               :: [ {| reducer := double; types := ["X"] |} ]))
    (VNum 5) (action_of "X")
  = dispatch (createReducer (VNum 0)
                ([ {| reducer := inc; types := ["X"] |} ]
                 ++ [ {| reducer := double; types := ["X"] |} ]))
      (VNum 5) (action_of "X").
Proof.
  apply (pairing_of_other_types_is_not_called
           (VNum 0) [ {| reducer := inc; types := ["X"] |} ]
           [ {| reducer := double; types := ["X"] |} ]
           {| reducer := boom; types := ["Y"; "Z"] |}
           (VNum 5) (action_of "X")).
  simpl. explicit_list.
Defined.

(** X9: a type that one pairing alone lists, and lists once, is handled by
    the state change function of that pairing alone, called once with the
    state parameter and the action, wherever the pairing stands: the
    reducer behaves as the [switch] statement it replaces. *)
Theorem single_listing_calls_one_handler
    (initialState : value) (ons1 ons2 : list ReducerTypes) (p : ReducerTypes)
    (state : value) (action : Action.t) :
  NoDup (types p) ->
  Action.type action ∈ types p ->
  (forall on, on ∈ ons1 ++ ons2 -> Action.type action ∉ types on) ->
  dispatch (createReducer initialState (ons1 ++ p :: ons2)) state action
  = reducer p (default_param initialState state) action.
Proof.
  intros Hnd Hin Hothers. rewrite dispatch_createReducer.
  rewrite handlers_for_app, handlers_for_cons.
  rewrite (handlers_for_unlisted _ ons1), (handlers_for_unlisted _ ons2).
  - rewrite occurrences_NoDup by done. simpl.
    by destruct (reducer p _ action).
  - intros on Hon. apply Hothers, elem_of_app. by right.
  - intros on Hon. apply Hothers, elem_of_app. by left.
Qed.

Lemma single_listing_witness :
  dispatch (createReducer (VNum 0)
              ([ {| reducer := boom; types := ["A"] |} ]
               ++ {| reducer := inc; types := ["X"; "Y"] |}
               :: [ {| reducer := double; types := ["B"] |} ]))
    VUndefined (action_of "Y")
  = inc (default_param (VNum 0) VUndefined) (action_of "Y").
Proof.
  apply (single_listing_calls_one_handler
           (VNum 0) [ {| reducer := boom; types := ["A"] |} ]
           [ {| reducer := double; types := ["B"] |} ]
           {| reducer := inc; types := ["X"; "Y"] |}
           VUndefined (action_of "Y")).
  - simpl. apply (bool_decide_unpack _). vm_compute. exact I.
  - simpl. apply (bool_decide_unpack _). vm_compute. exact I.
  - intros on Hon. explicit_list.
Defined.

(** X10: with any number of pairings that each list the type of the action
    once, the call runs their state change functions one after the other
    in the order of the pairings, from the state parameter. *)
Theorem listed_once_each_runs_all_in_order
    (initialState : value) (ons : list ReducerTypes)
    (state : value) (action : Action.t) :
  (forall on, on ∈ ons -> occurrences (Action.type action) (types on) = 1%nat) ->
  dispatch (createReducer initialState ons) state action
  = run_handlers (reducer <$> ons) (default_param initialState state) action.
Proof.
  intros Honce. rewrite dispatch_createReducer. f_equal.
  induction ons as [|on ons IH]; [done|].
  rewrite handlers_for_cons, Honce by (by left). simpl. f_equal.
  apply IH. intros on' Hon'. apply Honce. by right.
Qed.

Lemma listed_once_each_witness :
  dispatch (createReducer (VNum 0)
              [ {| reducer := inc; types := ["X"] |};
                {| reducer := double; types := ["Y"; "X"] |};
                {| reducer := inc; types := ["X"; "Z"] |} ])
    (VNum 5) (action_of "X")
  = run_handlers [inc; double; inc] (default_param (VNum 0) (VNum 5)) (action_of "X").
Proof.
  apply (listed_once_each_runs_all_in_order
           (VNum 0)
           [ {| reducer := inc; types := ["X"] |};
             {| reducer := double; types := ["Y"; "X"] |};
             {| reducer := inc; types := ["X"; "Z"] |} ]
           (VNum 5) (action_of "X")).
  intros on Hon. explicit_list.
Defined.

(** X11: [on] called with any number of action creators, none included,
    followed by a state change function returns that function paired with
    the types of the creators, as many as there are creators and in their
    order; the [pop] leaves the creators in the rest array. *)
Theorem on_keeps_every_creator_type
    (creators : list ActionCreator.t) (f : OnReducer) :
  on_body (on_args creators f)
  = (Some {| reducer := f; types := ActionCreator.type <$> creators |},
     ArgCreator <$> creators)
  /\ (forall p, on (on_args creators f) = Some p ->
        reducer p = f
        /\ length (types p) = length creators
        /\ forall i creator, creators !! i = Some creator ->
             types p !! i = Some (ActionCreator.type creator)).
Proof.
  split; [apply on_body_well_typed|].
  intros p Hp. rewrite on_well_typed in Hp. injection Hp as <-. simpl.
  split; [done|]. split; [by rewrite length_fmap|].
  intros i creator Hi. by rewrite list_lookup_fmap, Hi.
Qed.
